(** * Day 24, part two: the rock that hits every hailstone

    A shallow embedding of [day24-hail/z3_solution.py].  The script declares
    six integer unknowns, adds two equality constraints per hailstone to a
    z3 solver, asks for a model and prints the sum of the position
    components.  The z3 terms are kept as syntax (they are what the script
    hands to the solver), together with their meaning over the integers;
    the solver itself is an external collaborator and appears as an
    interface. *)

From Stdlib Require Import ZArith List Lia Bool Reals Lra Permutation.
Import ListNotations.
Open Scope Z_scope.

(** ** z3 terms *)

(** The six constants declared by [Ints('px vx')], [Ints('py vy')] and
    [Ints('pz vz')]. *)
Inductive Unknown : Type := Px | Py | Pz | Vx | Vy | Vz.

Definition Unknown_eqb (a b : Unknown) : bool :=
  match a, b with
  | Px, Px | Py, Py | Pz, Pz | Vx, Vx | Vy, Vy | Vz, Vz => true
  | _, _ => false
  end.

(** Integer-sorted terms: only [-] and [*] occur in the script; a Python
    integer meeting a z3 term is wrapped as a numeral ([IntVal]). *)
Inductive ArithRef : Type :=
| IntConst (v : Unknown)
| IntVal (n : Z)
| Sub (a b : ArithRef)
| Mul (a b : ArithRef).

(** Boolean terms: the script only builds equalities, with [==]. *)
Inductive BoolRef : Type :=
| Eq (l r : ArithRef).

Declare Scope z3_scope.
Delimit Scope z3_scope with z3.
Bind Scope z3_scope with ArithRef.
Notation "a - b" := (Sub a b) : z3_scope.
Notation "a * b" := (Mul a b) : z3_scope.
Notation "a == b" := (Eq a b) (at level 70, no associativity) : z3_scope.
Coercion IntVal : Z >-> ArithRef.

Definition px : ArithRef := IntConst Px.
Definition vx : ArithRef := IntConst Vx.
Definition py : ArithRef := IntConst Py.
Definition vy : ArithRef := IntConst Vy.
Definition pz : ArithRef := IntConst Pz.
Definition vz : ArithRef := IntConst Vz.

(** ** Meaning of terms over the integers *)

(** A total valuation of the unknowns.  z3's [Int] sort is the unbounded
    integers, hence [Z] with no wrap-around. *)
Definition Assignment : Type := Unknown -> Z.

Definition assign (x y z u v w : Z) : Assignment :=
  fun k =>
    match k with
    | Px => x | Py => y | Pz => z
    | Vx => u | Vy => v | Vz => w
    end.

Fixpoint eval (a : Assignment) (e : ArithRef) : Z :=
  match e with
  | IntConst v => a v
  | IntVal n => n
  | Sub l r => eval a l - eval a r
  | Mul l r => eval a l * eval a r
  end.

Definition holds (a : Assignment) (c : BoolRef) : Prop :=
  match c with
  | Eq l r => eval a l = eval a r
  end.

Definition holdsb (a : Assignment) (c : BoolRef) : bool :=
  match c with
  | Eq l r => eval a l =? eval a r
  end.

(** Conjunction semantics of a solver's assertion list. *)
Definition satisfies (a : Assignment) (cs : list BoolRef) : Prop :=
  Forall (holds a) cs.

Definition satisfiesb (a : Assignment) (cs : list BoolRef) : bool :=
  forallb (holdsb a) cs.

(** ** The script *)

(** Lines 28-32. *)
Definition hailstones : list (list Z) :=
  [ [216518090678054; 311610807965630; 244665409335040; -24; -43; 118];
    [119252599207972; 265844340901442; 404506989029618; 93; 9; -69];
    [366376232895280; 243548034524148; 222429607201000; 18; 38; 19] ].

(** Exceptions the script can end with. *)
Inductive Exn : Type :=
| ValueError       (* unpacking a row that has not six entries *)
| Z3Exception      (* [s.model()] when no model is available *)
| AttributeError.  (* [.as_long()] on [None] *)

Inductive Outcome (A : Type) : Type :=
| Ok (a : A)
| Raise (e : Exn).
Arguments Ok {A} a.
Arguments Raise {A} e.

(** A [Solver] object holds the assertions added so far; [s.add(c)] appends. *)
Definition Solver : Type := list BoolRef.

Definition add (s : Solver) (c : BoolRef) : Solver := s ++ [c].

(** The two constraints of lines 37 and 38 for one hailstone. *)
Definition constraint_y (sx sy ux uy : Z) : BoolRef :=
  ((px - sx) * (uy - vy) == (py - sy) * (ux - vx))%z3.

Definition constraint_z (sx sz ux uz : Z) : BoolRef :=
  ((px - sx) * (uz - vz) == (pz - sz) * (ux - vx))%z3.

(** Lines 36-38: [for [sx, sy, sz, ux, uy, uz] in hailstones].  The list
    pattern raises [ValueError] on a row whose length is not six. *)
Fixpoint for_hailstones (rows : list (list Z)) (s : Solver) : Outcome Solver :=
  match rows with
  | [] => Ok s
  | [sx; sy; sz; ux; uy; uz] :: rest =>
      let s := add s (constraint_y sx sy ux uy) in
      let s := add s (constraint_z sx sz ux uz) in
      for_hailstones rest s
  | _ :: _ => Raise ValueError
  end.

(** The verdict of [s.check()]. *)
Inductive CheckSatResult : Type := sat | unsat | unknown.

(** A z3 model: [m[x]] is an integer numeral, or [None] when the model
    gives the constant no interpretation. *)
Definition ModelRef : Type := Unknown -> option Z.

(** The external solver, as far as the script uses it: the verdict of
    [check()] on the asserted constraints, and [model()] after that check,
    which raises [Z3Exception] when no model is available. *)
Record Z3 : Type := {
  check : Solver -> CheckSatResult;
  model : Solver -> Outcome ModelRef
}.

(** What [print] writes, one constructor per line of output; each line is
    kept as the values it renders. *)
Inductive Line : Type :=
| PAssertions (cs : list BoolRef)
| PVerdict (r : CheckSatResult)
| PBlank
| PPosition (x y z : option Z)
| PVelocity (x y z : option Z)
| PAnswer (n : Z).

(** Straight-line code that prints and may raise: standard output so far in,
    standard output and outcome out. *)
Definition Script (A : Type) : Type := list Line -> list Line * Outcome A.

Definition ret {A} (a : A) : Script A := fun out => (out, Ok a).

Definition bind {A B} (c : Script A) (k : A -> Script B) : Script B :=
  fun out =>
    match c out with
    | (out', Ok a) => k a out'
    | (out', Raise e) => (out', Raise e)
    end.

Definition print (l : Line) : Script unit := fun out => (out ++ [l], Ok tt).

Definition lift {A} (o : Outcome A) : Script A := fun out => (out, o).

Notation "x <- c ;; k" := (bind c (fun x => k))
  (at level 61, c at next level, right associativity).
Notation "c ;; k" := (bind c (fun _ => k))
  (at level 61, right associativity).

(** [n.as_long()] where [n] is the value of [m[x]]. *)
Definition as_long (n : option Z) : Outcome Z :=
  match n with
  | Some v => Ok v
  | None => Raise AttributeError
  end.

(** Line 49. *)
Definition answer (m : ModelRef) : Outcome Z :=
  match as_long (m Px) with
  | Raise e => Raise e
  | Ok x =>
      match as_long (m Py) with
      | Raise e => Raise e
      | Ok y =>
          match as_long (m Pz) with
          | Raise e => Raise e
          | Ok z => Ok (x + y + z)
          end
      end
  end.

(** The whole script, lines 34-50. *)
Definition main (z3 : Z3) : Script unit :=
  s <- lift (for_hailstones hailstones []) ;;
  print (PAssertions s) ;;
  print (PVerdict (check z3 s)) ;;
  print PBlank ;;
  m <- lift (model z3 s) ;;
  print (PPosition (m Px) (m Py) (m Pz)) ;;
  print (PVelocity (m Vx) (m Vy) (m Vz)) ;;
  print PBlank ;;
  answer <- lift (answer m) ;;
  print (PAnswer answer).

(** Running the script from an empty standard output. *)
Definition run (z3 : Z3) : list Line * Outcome unit := main z3 [].

Definition stdout (z3 : Z3) : list Line := fst (run z3).

(** The assertions the loop leaves in a fresh solver for the given rows
    (none when the loop raises). *)
Definition system (rows : list (list Z)) : Solver :=
  match for_hailstones rows [] with
  | Ok s => s
  | Raise _ => []
  end.

(** The assertions the script submits. *)
Definition assertions : Solver := system hailstones.

(** ** The physical condition behind the constraints *)

(** Lines 11-14: at time [t] the hailstone [(sx, sy, sz)], [(ux, uy, uz)]
    and the rock given by the assignment are at the same position. *)
Definition meets (a : Assignment) (sx sy sz ux uy uz : Z) (t : R) : Prop :=
  (IZR sx + t * IZR ux = IZR (a Px) + t * IZR (a Vx) /\
   IZR sy + t * IZR uy = IZR (a Py) + t * IZR (a Vy) /\
   IZR sz + t * IZR uz = IZR (a Pz) + t * IZR (a Vz))%R.

(** The hailstone of a row and the rock collide: they meet at some time
    [t >= 0], and [t] is the only time at which their x coordinates
    agree. *)
Definition collides (a : Assignment) (row : list Z) : Prop :=
  match row with
  | [sx; sy; sz; ux; uy; uz] =>
      exists t : R,
        (0 <= t)%R /\ meets a sx sy sz ux uy uz t /\
        forall t' : R,
          (IZR sx + t' * IZR ux = IZR (a Px) + t' * IZR (a Vx))%R -> t' = t
  | _ => False
  end.

(** The rock state that solves the script's system. *)
Definition rock : Assignment :=
  assign 422644646660238 244357651988392 189640099899118 (-260) 34 181.

Definition rock_model : ModelRef := fun k => Some (rock k).

(** A solver that reports [rock] on every query, and one that never
    decides. *)
Definition z3_rock : Z3 :=
  {| check := fun _ => sat; model := fun _ => Ok rock_model |}.



(** All rows have the same velocity in x, namely [c]. *)
Definition same_ux (c : Z) (rows : list (list Z)) : Prop :=
  Forall (fun row => nth_error row 3 = Some c) rows.

(** A constraint list with exactly one satisfying assignment. *)
Definition unique_solution (cs : Solver) : Prop :=
  exists a : Assignment,
    satisfies a cs /\
    forall b : Assignment, satisfies b cs -> forall k, b k = a k.

(** Three hailstones with the same velocity in x, and the rock that hits
    all three. *)
Definition same_ux_rows : list (list Z) :=
  [ [1; -1; 0; 0; 1; 0];
    [2; 0; -2; 0; 0; 1];
    [3; -3; -3; 0; 1; 1] ].

Definition same_ux_rock : Assignment := assign 0 0 0 1 0 0.

(** ** Change of inertial frame *)

(** Positions displaced by [(dx, dy, dz)], velocities by [(wx, wy, wz)]:
    on the rock and on a hailstone row. *)
Definition translate (dx dy dz wx wy wz : Z) (a : Assignment) : Assignment :=
  assign (a Px + dx) (a Py + dy) (a Pz + dz)
         (a Vx + wx) (a Vy + wy) (a Vz + wz).

Definition translate_row (dx dy dz wx wy wz : Z) (row : list Z) : list Z :=
  match row with
  | [sx; sy; sz; ux; uy; uz] =>
      [sx + dx; sy + dy; sz + dz; ux + wx; uy + wy; uz + wz]
  | _ => row
  end.

(** ** Elimination of the linear unknowns *)

Definition det3 (a1 b1 c1 a2 b2 c2 a3 b3 c3 : Z) : Z :=
  a1 * (b2 * c3 - b3 * c2) - b1 * (a2 * c3 - a3 * c2)
  + c1 * (a2 * b3 - a3 * b2).

(** For fixed [X = px] and [V = vx] the three constraints on one further
    axis (position [sc], velocity [uc]) are linear in the two unknowns of
    that axis; they are compatible only where this determinant vanishes. *)
Definition conic (sx1 sc1 ux1 uc1 sx2 sc2 ux2 uc2 sx3 sc3 ux3 uc3 X V : Z)
  : Z :=
  det3 (X - sx1) (ux1 - V) ((X - sx1) * uc1 + sc1 * (ux1 - V))
       (X - sx2) (ux2 - V) ((X - sx2) * uc2 + sc2 * (ux2 - V))
       (X - sx3) (ux3 - V) ((X - sx3) * uc3 + sc3 * (ux3 - V)).

(** ** Terms as polynomials in the six unknowns *)

Definition unknowns : list Unknown := [Px; Py; Pz; Vx; Vy; Vz].

(** A monomial gives each unknown its exponent. *)
Definition Monomial : Type := Unknown -> nat.

Definition mono_one : Monomial := fun _ => 0%nat.

Definition mono_var (v : Unknown) : Monomial :=
  fun k => if Unknown_eqb v k then 1%nat else 0%nat.

Definition mono_mul (m n : Monomial) : Monomial :=
  fun k => (m k + n k)%nat.

Definition mono_eqb (m n : Monomial) : bool :=
  forallb (fun k => Nat.eqb (m k) (n k)) unknowns.

Definition mono_deg (m : Monomial) : nat :=
  fold_right (fun k acc => (m k + acc)%nat) 0%nat unknowns.

Definition eval_mono (a : Assignment) (m : Monomial) : Z :=
  fold_right (fun k acc => a k ^ Z.of_nat (m k) * acc) 1 unknowns.

(** A polynomial is a list of terms; equal monomials may repeat. *)
Definition Poly : Type := list (Z * Monomial).

Definition poly_neg (p : Poly) : Poly :=
  map (fun t => (- fst t, snd t)) p.

Definition poly_mul (p q : Poly) : Poly :=
  flat_map (fun t =>
    map (fun u => (fst t * fst u, mono_mul (snd t) (snd u))) q) p.

Fixpoint poly_of (e : ArithRef) : Poly :=
  match e with
  | IntConst v => [(1, mono_var v)]
  | IntVal n => [(n, mono_one)]
  | Sub l r => poly_of l ++ poly_neg (poly_of r)
  | Mul l r => poly_mul (poly_of l) (poly_of r)
  end.

Definition eval_poly (a : Assignment) (p : Poly) : Z :=
  fold_right (fun t acc => fst t * eval_mono a (snd t) + acc) 0 p.

(** The coefficient of a monomial: the sum over its occurrences. *)
Definition coeff (p : Poly) (m : Monomial) : Z :=
  fold_right (fun t acc => if mono_eqb (snd t) m then fst t + acc else acc)
             0 p.

(** Left side minus right side of an equality. *)
Definition residual (c : BoolRef) : ArithRef :=
  match c with
  | Eq l r => Sub l r
  end.

Definition total_degree (p : Poly) (d : nat) : Prop :=
  (forall m, coeff p m <> 0 -> (mono_deg m <= d)%nat) /\
  (exists m, mono_deg m = d /\ coeff p m <> 0).

(** ** The loop on rows of any number and length *)

(** What one pass of the loop body adds for a row (lines 37-38). *)
Definition row_constraints (row : list Z) : list BoolRef :=
  match row with
  | [sx; sy; sz; ux; uy; uz] =>
      [constraint_y sx sy ux uy; constraint_z sx sz ux uz]
  | _ => []
  end.

(** The rows the list pattern of line 36 accepts. *)
Definition six_long (row : list Z) : bool := Nat.eqb (length row) 6.

Definition well_formed (rows : list (list Z)) : Prop :=
  Forall (fun row => length row = 6%nat) rows.

(** Both constraints of a row hold. *)
Definition row_holds (a : Assignment) (row : list Z) : Prop :=
  Forall (holds a) (row_constraints row).

(** Lines 11-14 for a row: its hailstone and the rock are at the same
    position at some real time. *)
Definition meets_row (a : Assignment) (row : list Z) : Prop :=
  match row with
  | [sx; sy; sz; ux; uy; uz] => exists t : R, meets a sx sy sz ux uy uz t
  | _ => False
  end.

(** ** Change of units *)

(** Lengths multiplied by [l], velocities by [m] ([m = -1] reverses
    time): on the rock and on a hailstone row. *)
Definition rescale (l m : Z) (a : Assignment) : Assignment :=
  assign (l * a Px) (l * a Py) (l * a Pz) (m * a Vx) (m * a Vy) (m * a Vz).

Definition rescale_row (l m : Z) (row : list Z) : list Z :=
  match row with
  | [sx; sy; sz; ux; uy; uz] =>
      [l * sx; l * sy; l * sz; m * ux; m * uy; m * uz]
  | _ => row
  end.

(** ** Models and assignments *)

(** An assignment completes a model when it takes the model's value
    wherever the model has one. *)
Definition completes (a : Assignment) (m : ModelRef) : Prop :=
  forall k v, m k = Some v -> a k = v.

(** A model of a constraint list: a constant the model leaves out may take
    any value, so every completion has to satisfy the constraints. *)
Definition sound_model (m : ModelRef) (cs : Solver) : Prop :=
  forall a : Assignment, completes a m -> satisfies a cs.

(** The completion that moves every constant the model leaves out away
    from [rock]. *)
Definition away_from_rock (m : ModelRef) : Assignment :=
  fun k =>
    match m k with
    | Some v => v
    | None => rock k + 1
    end.

(** * Properties *)

(** ** The loop and the script *)

Lemma for_hailstones_step (rest : list (list Z)) (s : Solver)
  (sx sy sz ux uy uz : Z) :
  for_hailstones ([sx; sy; sz; ux; uy; uz] :: rest) s =
  for_hailstones rest
    (s ++ [constraint_y sx sy ux uy; constraint_z sx sz ux uz]).
Proof.
  cbn [for_hailstones]. unfold add. now rewrite <- app_assoc.
Qed.

Lemma for_hailstones_literal : for_hailstones hailstones [] = Ok assertions.
Proof. reflexivity. Qed.

(** The script, by what the solver's [model()] returns and by what
    [.as_long()] finds in the model. *)
Lemma run_no_model (z3 : Z3) (e : Exn) :
  model z3 assertions = Raise e ->
  run z3 =
  ([PAssertions assertions; PVerdict (check z3 assertions); PBlank], Raise e).
Proof.
  intros H. unfold run, main, bind, lift, print.
  rewrite for_hailstones_literal. cbn [app]. now rewrite H.
Qed.

Lemma run_model (z3 : Z3) (m : ModelRef) :
  model z3 assertions = Ok m ->
  run z3 =
  match answer m with
  | Ok n =>
      ([PAssertions assertions; PVerdict (check z3 assertions); PBlank;
        PPosition (m Px) (m Py) (m Pz); PVelocity (m Vx) (m Vy) (m Vz);
        PBlank; PAnswer n], Ok tt)
  | Raise e =>
      ([PAssertions assertions; PVerdict (check z3 assertions); PBlank;
        PPosition (m Px) (m Py) (m Pz); PVelocity (m Vx) (m Vy) (m Vz);
        PBlank], Raise e)
  end.
Proof.
  intros H. unfold run, main, bind, lift, print.
  rewrite for_hailstones_literal. cbn [app]. rewrite H. cbn [app].
  now destruct (answer m).
Qed.

Lemma answer_Ok (m : ModelRef) (n : Z) :
  answer m = Ok n <->
  exists x y z,
    m Px = Some x /\ m Py = Some y /\ m Pz = Some z /\ n = x + y + z.
Proof.
  unfold answer, as_long. split.
  - destruct (m Px) as [x|], (m Py) as [y|], (m Pz) as [z|];
      intros H; try discriminate.
    injection H as <-. now exists x, y, z.
  - intros (x & y & z & -> & -> & -> & ->). reflexivity.
Qed.

(** The six assertions, read over the integers. *)
Lemma satisfies_assertions (a : Assignment) :
  satisfies a assertions <->
  (a Px - 216518090678054) * (-43 - a Vy)
  = (a Py - 311610807965630) * (-24 - a Vx) /\
  (a Px - 216518090678054) * (118 - a Vz)
  = (a Pz - 244665409335040) * (-24 - a Vx) /\
  (a Px - 119252599207972) * (9 - a Vy)
  = (a Py - 265844340901442) * (93 - a Vx) /\
  (a Px - 119252599207972) * (-69 - a Vz)
  = (a Pz - 404506989029618) * (93 - a Vx) /\
  (a Px - 366376232895280) * (38 - a Vy)
  = (a Py - 243548034524148) * (18 - a Vx) /\
  (a Px - 366376232895280) * (19 - a Vz)
  = (a Pz - 222429607201000) * (18 - a Vx).
Proof.
  unfold satisfies, assertions, system.
  cbn [for_hailstones hailstones add app].
  split.
  - intros H.
    repeat match goal with
           | H : Forall _ (_ :: _) |- _ => inversion H; subst; clear H
           end.
    unfold holds, constraint_y, constraint_z in *.
    cbn [eval px py pz vx vy vz] in *.
    repeat split; assumption.
  - intros (H1 & H2 & H3 & H4 & H5 & H6).
    repeat constructor; assumption.
Qed.

(** C1: for a hailstone row [sx, sy, sz, ux, uy, uz] the loop body adds
    exactly the two equalities
    [(px - sx) * (uy - vy) == (py - sy) * (ux - vx)] and
    [(px - sx) * (uz - vz) == (pz - sz) * (ux - vx)], in this order, to the
    solver; on the three literal hailstones the solver ends with exactly six
    assertions, these are what [check()] is called on, and an assignment of
    the six integer unknowns satisfies them (all at once) exactly when the
    six integer equations hold. *)
Theorem emitted_constraints :
  (forall rest s sx sy sz ux uy uz,
      for_hailstones ([sx; sy; sz; ux; uy; uz] :: rest) s =
      for_hailstones rest
        (s ++ [ ((px - sx) * (uy - vy) == (py - sy) * (ux - vx))%z3;
                ((px - sx) * (uz - vz) == (pz - sz) * (ux - vx))%z3 ])) /\
  for_hailstones hailstones [] =
  Ok [ ((px - 216518090678054) * (-43 - vy)
        == (py - 311610807965630) * (-24 - vx))%z3;
       ((px - 216518090678054) * (118 - vz)
        == (pz - 244665409335040) * (-24 - vx))%z3;
       ((px - 119252599207972) * (9 - vy)
        == (py - 265844340901442) * (93 - vx))%z3;
       ((px - 119252599207972) * (-69 - vz)
        == (pz - 404506989029618) * (93 - vx))%z3;
       ((px - 366376232895280) * (38 - vy)
        == (py - 243548034524148) * (18 - vx))%z3;
       ((px - 366376232895280) * (19 - vz)
        == (pz - 222429607201000) * (18 - vx))%z3 ] /\
  (forall z3,
      exists rest,
        stdout z3 =
        PAssertions assertions :: PVerdict (check z3 assertions) :: rest) /\
  (forall a : Assignment,
      satisfies a assertions <->
      (a Px - 216518090678054) * (-43 - a Vy)
      = (a Py - 311610807965630) * (-24 - a Vx) /\
      (a Px - 216518090678054) * (118 - a Vz)
      = (a Pz - 244665409335040) * (-24 - a Vx) /\
      (a Px - 119252599207972) * (9 - a Vy)
      = (a Py - 265844340901442) * (93 - a Vx) /\
      (a Px - 119252599207972) * (-69 - a Vz)
      = (a Pz - 404506989029618) * (93 - a Vx) /\
      (a Px - 366376232895280) * (38 - a Vy)
      = (a Py - 243548034524148) * (18 - a Vx) /\
      (a Px - 366376232895280) * (19 - a Vz)
      = (a Pz - 222429607201000) * (18 - a Vx)).
Proof.
  split; [| split; [| split]].
  - intros. apply for_hailstones_step.
  - reflexivity.
  - intros z3. unfold stdout.
    destruct (model z3 assertions) as [m|e] eqn:Hm.
    + rewrite (run_model z3 m Hm). destruct (answer m); eexists; reflexivity.
    + rewrite (run_no_model z3 e Hm). eexists; reflexivity.
  - apply satisfies_assertions.
Qed.

(** C7: the input is the literal list of three rows of six integers, with
    the values and the order of the source; the script takes nothing else
    (its only parameter here is the solver), and the constraints it prints
    first are those built from this literal. *)
Theorem input_is_three_literal_rows :
  hailstones =
  [ [216518090678054; 311610807965630; 244665409335040; -24; -43; 118];
    [119252599207972; 265844340901442; 404506989029618; 93; 9; -69];
    [366376232895280; 243548034524148; 222429607201000; 18; 38; 19] ] /\
  length hailstones = 3%nat /\
  Forall (fun row => length row = 6%nat) hailstones /\
  (forall z3 : Z3,
      hd_error (stdout z3) =
      Some (PAssertions (system
        [ [216518090678054; 311610807965630; 244665409335040; -24; -43; 118];
          [119252599207972; 265844340901442; 404506989029618; 93; 9; -69];
          [366376232895280; 243548034524148; 222429607201000; 18; 38; 19] ]))).
Proof.
  split; [reflexivity | split; [reflexivity | split]].
  - repeat constructor.
  - intros z3. unfold stdout.
    destruct (model z3 assertions) as [m|e] eqn:Hm.
    + rewrite (run_model z3 m Hm). now destruct (answer m).
    + now rewrite (run_no_model z3 e Hm).
Qed.

(** C3: the script prints an answer [n] exactly when the solver returned a
    model [m] that gives values to [px], [py] and [pz], and then [n] is the
    integer sum [m[px] + m[py] + m[pz]] (over the unbounded integers); two
    models that agree on the three position components give the same
    answer, whatever their velocity components are. *)
Theorem answer_is_position_sum :
  (forall (z3 : Z3) (n : Z),
      In (PAnswer n) (stdout z3) <->
      exists m x y z,
        model z3 assertions = Ok m /\
        m Px = Some x /\ m Py = Some y /\ m Pz = Some z /\
        n = x + y + z) /\
  (forall m m' : ModelRef,
      m Px = m' Px -> m Py = m' Py -> m Pz = m' Pz ->
      answer m = answer m').
Proof.
  split.
  - intros z3 n. unfold stdout.
    destruct (model z3 assertions) as [m|e] eqn:Hm.
    + rewrite (run_model z3 m Hm). split.
      * destruct (answer m) as [k|e] eqn:Ha; cbn [fst In]; intros H.
        -- repeat (destruct H as [H|H]; try discriminate H); try contradiction.
           injection H as <-.
           apply answer_Ok in Ha. destruct Ha as (x & y & z & ?).
           now exists m, x, y, z.
        -- repeat (destruct H as [H|H]; try discriminate H); contradiction.
      * intros (m0 & x & y & z & Hm0 & Hx & Hy & Hz & ->).
        injection Hm0 as <-.
        assert (Ha : answer m = Ok (x + y + z))
          by (apply answer_Ok; now exists x, y, z).
        rewrite Ha. cbn [fst In]. intuition.
    + rewrite (run_no_model z3 e Hm). cbn [fst In]. split.
      * intros H.
        repeat (destruct H as [H|H]; try discriminate H); contradiction.
      * intros (m0 & _ & _ & _ & Hm0 & _). discriminate Hm0.
  - intros m m' Hx Hy Hz. unfold answer. now rewrite Hx, Hy, Hz.
Qed.

Lemma answer_is_position_sum_witness :
  In (PAnswer 856642398547748) (stdout z3_rock) /\
  answer rock_model = answer (fun k => Some (assign 422644646660238
    244357651988392 189640099899118 0 0 0 k)).
Proof.
  split.
  - apply (proj1 answer_is_position_sum z3_rock 856642398547748).
    exists rock_model, 422644646660238, 244357651988392, 189640099899118.
    repeat split; reflexivity.
  - apply (proj2 answer_is_position_sum); reflexivity.
Defined.




(** ** The constraints and the physical condition *)

Lemma holds_constraint_y (a : Assignment) (sx sy ux uy : Z) :
  holds a (constraint_y sx sy ux uy) <->
  (a Px - sx) * (uy - a Vy) = (a Py - sy) * (ux - a Vx).
Proof. reflexivity. Qed.

Lemma holds_constraint_z (a : Assignment) (sx sz ux uz : Z) :
  holds a (constraint_z sx sz ux uz) <->
  (a Px - sx) * (uz - a Vz) = (a Pz - sz) * (ux - a Vx).
Proof. reflexivity. Qed.

(** Cross-multiplication over the reals: two components that meet at the
    same time [t] satisfy the product equation. *)
Lemma cross_multiply (p q s r u w v z t : R) :
  (s + t * u = p + t * v)%R ->
  (r + t * w = q + t * z)%R ->
  ((p - s) * (w - z) = (q - r) * (u - v))%R.
Proof.
  intros H1 H2.
  assert (E1 : (p - s = t * (u - v))%R) by lra.
  assert (E2 : (q - r = t * (w - z))%R) by lra.
  rewrite E1, E2. ring.
Qed.

(** C9: if at some real time [t], of any sign, the rock and a hailstone are
    at the same position in all three coordinates, the two constraints the
    script emits for that hailstone hold; nothing is assumed about the
    velocities. *)
Theorem meeting_implies_constraints (a : Assignment)
  (sx sy sz ux uy uz : Z) :
  (exists t : R, meets a sx sy sz ux uy uz t) ->
  holds a (constraint_y sx sy ux uy) /\ holds a (constraint_z sx sz ux uz).
Proof.
  intros (t & Hx & Hy & Hz).
  rewrite holds_constraint_y, holds_constraint_z.
  split; apply eq_IZR; rewrite !mult_IZR, !minus_IZR;
    eapply cross_multiply; eassumption.
Qed.

Lemma meeting_implies_constraints_witness :
  meets (assign 5 1 0 (-1) 2 7) 9 (-7) (-20) 1 (-2) (-3) (-2) /\
  holds (assign 5 1 0 (-1) 2 7) (constraint_y 9 (-7) 1 (-2)) /\
  holds (assign 5 1 0 (-1) 2 7) (constraint_z 9 (-20) 1 (-3)).
Proof.
  assert (H : meets (assign 5 1 0 (-1) 2 7) 9 (-7) (-20) 1 (-2) (-3) (-2))
    by (unfold meets; cbn [assign]; repeat split; lra).
  split; [exact H|].
  apply (meeting_implies_constraints
           (assign 5 1 0 (-1) 2 7) 9 (-7) (-20) 1 (-2) (-3)).
  exists (-2)%R. exact H.
Defined.

(** ** Change of inertial frame *)

Section Translate.

Variables dx dy dz wx wy wz : Z.

Lemma translate_constraint_y (a : Assignment) (sx sy ux uy : Z) :
  holds a (constraint_y sx sy ux uy) <->
  holds (translate dx dy dz wx wy wz a)
        (constraint_y (sx + dx) (sy + dy) (ux + wx) (uy + wy)).
Proof.
  rewrite !holds_constraint_y. unfold translate. cbn [assign].
  replace (a Px + dx - (sx + dx)) with (a Px - sx) by ring.
  replace (uy + wy - (a Vy + wy)) with (uy - a Vy) by ring.
  replace (a Py + dy - (sy + dy)) with (a Py - sy) by ring.
  replace (ux + wx - (a Vx + wx)) with (ux - a Vx) by ring.
  reflexivity.
Qed.

Lemma translate_constraint_z (a : Assignment) (sx sz ux uz : Z) :
  holds a (constraint_z sx sz ux uz) <->
  holds (translate dx dy dz wx wy wz a)
        (constraint_z (sx + dx) (sz + dz) (ux + wx) (uz + wz)).
Proof.
  rewrite !holds_constraint_z. unfold translate. cbn [assign].
  replace (a Px + dx - (sx + dx)) with (a Px - sx) by ring.
  replace (uz + wz - (a Vz + wz)) with (uz - a Vz) by ring.
  replace (a Pz + dz - (sz + dz)) with (a Pz - sz) by ring.
  replace (ux + wx - (a Vx + wx)) with (ux - a Vx) by ring.
  reflexivity.
Qed.

(** The loop on translated rows, from solvers that already agree. *)
Lemma translate_for_hailstones (a : Assignment) (rows : list (list Z)) :
  forall s s' : Solver,
    (satisfies a s <-> satisfies (translate dx dy dz wx wy wz a) s') ->
    match for_hailstones rows s,
          for_hailstones (map (translate_row dx dy dz wx wy wz) rows) s'
    with
    | Ok r, Ok r' =>
        satisfies a r <-> satisfies (translate dx dy dz wx wy wz a) r'
    | Raise _, Raise _ => True
    | _, _ => False
    end.
Proof.
  induction rows as [|row rows IH]; intros s s' Hs; [exact Hs|].
  destruct row as [|sx [|sy [|sz [|ux [|uy [|uz [|extra row]]]]]]];
    try exact I.
  cbn [map translate_row].
  rewrite !for_hailstones_step. apply IH.
  unfold satisfies in *. rewrite !Forall_app, Hs.
  pose proof (translate_constraint_y a sx sy ux uy) as Hy.
  pose proof (translate_constraint_z a sx sz ux uz) as Hz.
  split; intros [H0 H1]; (split; [exact H0|]);
    inversion H1 as [|? ? Hc1 H2]; subst;
    inversion H2 as [|? ? Hc2 _]; subst;
    repeat constructor; tauto.
Qed.

End Translate.

(** C10: for every displacement [(dx, dy, dz)] and velocity shift
    [(wx, wy, wz)], an assignment satisfies the two constraints of a
    hailstone exactly when the translated assignment satisfies the two
    constraints of the translated hailstone; hence, for any rows, the
    translated assignment solves the system built from the translated rows
    exactly when the assignment solves the system built from the rows. *)
Theorem galilean_invariance (dx dy dz wx wy wz : Z) (a : Assignment) :
  (forall sx sy sz ux uy uz : Z,
      holds a (constraint_y sx sy ux uy) /\
      holds a (constraint_z sx sz ux uz) <->
      holds (translate dx dy dz wx wy wz a)
            (constraint_y (sx + dx) (sy + dy) (ux + wx) (uy + wy)) /\
      holds (translate dx dy dz wx wy wz a)
            (constraint_z (sx + dx) (sz + dz) (ux + wx) (uz + wz))) /\
  (forall rows : list (list Z),
      satisfies a (system rows) <->
      satisfies (translate dx dy dz wx wy wz a)
                (system (map (translate_row dx dy dz wx wy wz) rows))).
Proof.
  split.
  - intros sx sy sz ux uy uz.
    rewrite <- (translate_constraint_y dx dy dz wx wy wz a sx sy ux uy).
    rewrite <- (translate_constraint_z dx dy dz wx wy wz a sx sz ux uz).
    reflexivity.
  - intros rows. unfold system.
    pose proof (translate_for_hailstones dx dy dz wx wy wz a rows [] []) as H.
    destruct (for_hailstones rows []),
      (for_hailstones (map (translate_row dx dy dz wx wy wz) rows) []);
      try (apply H; unfold satisfies; split; constructor);
      try (exfalso; apply H; unfold satisfies; split; constructor).
    unfold satisfies; split; constructor.
Qed.

(** ** Terms as polynomials *)

Lemma eval_mono_mul (a : Assignment) (m n : Monomial) :
  eval_mono a (mono_mul m n) = eval_mono a m * eval_mono a n.
Proof.
  unfold eval_mono, mono_mul, unknowns. cbn [fold_right].
  rewrite !Nat2Z.inj_add, !Z.pow_add_r by apply Nat2Z.is_nonneg. ring.
Qed.

Lemma eval_poly_app (a : Assignment) (p q : Poly) :
  eval_poly a (p ++ q) = eval_poly a p + eval_poly a q.
Proof.
  induction p as [|t p IH]; cbn [app eval_poly fold_right] in *; [reflexivity|].
  fold (eval_poly a (p ++ q)). fold (eval_poly a p). rewrite IH. ring.
Qed.

Lemma eval_poly_neg (a : Assignment) (p : Poly) :
  eval_poly a (poly_neg p) = - eval_poly a p.
Proof.
  induction p as [|t p IH]; [reflexivity|].
  unfold poly_neg in *. cbn [map eval_poly fold_right fst snd] in *.
  fold (eval_poly a p).
  fold (eval_poly a (map (fun t => (- fst t, snd t)) p)).
  rewrite IH. ring.
Qed.

Lemma eval_poly_scale (a : Assignment) (t : Z * Monomial) (q : Poly) :
  eval_poly a (map (fun u => (fst t * fst u, mono_mul (snd t) (snd u))) q)
  = fst t * eval_mono a (snd t) * eval_poly a q.
Proof.
  induction q as [|u q IH]; cbn [map eval_poly fold_right fst snd] in *;
    [ring|].
  fold (eval_poly a q).
  fold (eval_poly a
          (map (fun u => (fst t * fst u, mono_mul (snd t) (snd u))) q)).
  rewrite IH, eval_mono_mul. ring.
Qed.

Lemma eval_poly_mul (a : Assignment) (p q : Poly) :
  eval_poly a (poly_mul p q) = eval_poly a p * eval_poly a q.
Proof.
  induction p as [|t p IH]; [reflexivity|].
  unfold poly_mul in *. cbn [flat_map].
  rewrite eval_poly_app, eval_poly_scale, IH.
  cbn [eval_poly fold_right]. fold (eval_poly a p). ring.
Qed.

(** The polynomial of a term has the term's value at every assignment. *)
Lemma poly_of_sound (a : Assignment) (e : ArithRef) :
  eval_poly a (poly_of e) = eval a e.
Proof.
  induction e as [v|n|l IHl r IHr|l IHl r IHr]; cbn [poly_of eval].
  - unfold eval_poly, eval_mono, mono_var, unknowns.
    destruct v; cbn [fold_right fst snd Unknown_eqb Z.of_nat];
      rewrite ?Z.pow_0_r, ?Z.pow_1_r; ring.
  - unfold eval_poly, eval_mono, mono_one, unknowns.
    cbn [fold_right fst snd Z.of_nat]. rewrite ?Z.pow_0_r. ring.
  - rewrite eval_poly_app, eval_poly_neg, IHl, IHr. ring.
  - rewrite eval_poly_mul, IHl, IHr. reflexivity.
Qed.

Lemma mono_eqb_deg (m n : Monomial) :
  mono_eqb m n = true -> mono_deg m = mono_deg n.
Proof.
  unfold mono_eqb, mono_deg, unknowns. cbn [forallb fold_right].
  rewrite !andb_true_iff, !Nat.eqb_eq. lia.
Qed.

(** A monomial with a coefficient that is not zero occurs in the list. *)
Lemma coeff_support (p : Poly) (m : Monomial) (d : nat) :
  Forall (fun t => (mono_deg (snd t) <= d)%nat) p ->
  coeff p m <> 0 -> (mono_deg m <= d)%nat.
Proof.
  induction 1 as [|t p Ht _ IH]; cbn [coeff fold_right]; [congruence|].
  fold (coeff p m). destruct (mono_eqb (snd t) m) eqn:E.
  - intros _. now rewrite <- (mono_eqb_deg _ _ E).
  - exact IH.
Qed.

Lemma residual_y_quadratic (sx sy ux uy : Z) :
  coeff (poly_of (residual (constraint_y sx sy ux uy)))
        (mono_mul (mono_var Px) (mono_var Vy)) = -1 /\
  coeff (poly_of (residual (constraint_y sx sy ux uy)))
        (mono_mul (mono_var Py) (mono_var Vx)) = 1 /\
  total_degree (poly_of (residual (constraint_y sx sy ux uy))) 2.
Proof.
  assert (H : coeff (poly_of (residual (constraint_y sx sy ux uy)))
                    (mono_mul (mono_var Px) (mono_var Vy)) = -1).
  { cbv -[Z.mul Z.add Z.opp]. lia. }
  split; [exact H|]. split; [cbv -[Z.mul Z.add Z.opp]; lia|].
  split.
  - intros m. apply coeff_support.
    repeat (constructor; [cbv; lia|]). constructor.
  - exists (mono_mul (mono_var Px) (mono_var Vy)).
    split; [reflexivity|]. rewrite H. discriminate.
Qed.

Lemma residual_z_quadratic (sx sz ux uz : Z) :
  coeff (poly_of (residual (constraint_z sx sz ux uz)))
        (mono_mul (mono_var Px) (mono_var Vz)) = -1 /\
  coeff (poly_of (residual (constraint_z sx sz ux uz)))
        (mono_mul (mono_var Pz) (mono_var Vx)) = 1 /\
  total_degree (poly_of (residual (constraint_z sx sz ux uz))) 2.
Proof.
  assert (H : coeff (poly_of (residual (constraint_z sx sz ux uz)))
                    (mono_mul (mono_var Px) (mono_var Vz)) = -1).
  { cbv -[Z.mul Z.add Z.opp]. lia. }
  split; [exact H|]. split; [cbv -[Z.mul Z.add Z.opp]; lia|].
  split.
  - intros m. apply coeff_support.
    repeat (constructor; [cbv; lia|]). constructor.
  - exists (mono_mul (mono_var Px) (mono_var Vz)).
    split; [reflexivity|]. rewrite H. discriminate.
Qed.

(** C8: written as a polynomial in the six unknowns, left side minus right
    side of each emitted constraint has total degree 2 whatever the
    hailstone's constants are: the first constraint has the products
    [px*vy] (coefficient -1) and [py*vx] (coefficient 1), the second
    [px*vz] (coefficient -1) and [pz*vx] (coefficient 1), and no term of
    higher degree; so it is for the six constraints of the script.  The
    polynomial has the value of the term it comes from. *)
Theorem constraints_are_nonlinear :
  (forall sx sy sz ux uy uz : Z,
      let ry := poly_of (residual (constraint_y sx sy ux uy)) in
      let rz := poly_of (residual (constraint_z sx sz ux uz)) in
      (coeff ry (mono_mul (mono_var Px) (mono_var Vy)) = -1 /\
       coeff ry (mono_mul (mono_var Py) (mono_var Vx)) = 1 /\
       total_degree ry 2) /\
      (coeff rz (mono_mul (mono_var Px) (mono_var Vz)) = -1 /\
       coeff rz (mono_mul (mono_var Pz) (mono_var Vx)) = 1 /\
       total_degree rz 2)) /\
  Forall (fun c => total_degree (poly_of (residual c)) 2) assertions /\
  (forall (a : Assignment) (c : BoolRef),
      holds a c <-> eval_poly a (poly_of (residual c)) = 0).
Proof.
  split; [| split].
  - intros sx sy sz ux uy uz. split.
    + apply residual_y_quadratic.
    + apply residual_z_quadratic.
  - unfold assertions, system. rewrite for_hailstones_literal.
    unfold assertions, system.
    cbn [for_hailstones hailstones add app].
    repeat (apply Forall_cons;
            [ first [ exact (proj2 (proj2 (residual_y_quadratic _ _ _ _)))
                    | exact (proj2 (proj2 (residual_z_quadratic _ _ _ _))) ]
            | ]).
    apply Forall_nil.
  - intros a [l r]. rewrite poly_of_sound. cbn [residual eval holds]. lia.
Qed.

(** ** The solution of the script's system *)

Lemma conic_vanishes
  (sx1 sc1 ux1 uc1 sx2 sc2 ux2 uc2 sx3 sc3 ux3 uc3 X Y V W : Z) :
  (X - sx1) * (uc1 - W) = (Y - sc1) * (ux1 - V) ->
  (X - sx2) * (uc2 - W) = (Y - sc2) * (ux2 - V) ->
  (X - sx3) * (uc3 - W) = (Y - sc3) * (ux3 - V) ->
  conic sx1 sc1 ux1 uc1 sx2 sc2 ux2 uc2 sx3 sc3 ux3 uc3 X V = 0.
Proof.
  intros E1 E2 E3. unfold conic.
  replace ((X - sx1) * uc1 + sc1 * (ux1 - V))
    with ((X - sx1) * W + Y * (ux1 - V)) by lia.
  replace ((X - sx2) * uc2 + sc2 * (ux2 - V))
    with ((X - sx2) * W + Y * (ux2 - V)) by lia.
  replace ((X - sx3) * uc3 + sc3 * (ux3 - V))
    with ((X - sx3) * W + Y * (ux3 - V)) by lia.
  unfold det3. ring.
Qed.

(** The two conics in [(px, vx)] meet in four integer points: the rock, and
    the three points where [px] and [vx] are those of a hailstone. *)
Lemma px_vx_candidates (x y z u v w : Z) :
  (x - 216518090678054) * (-43 - v) = (y - 311610807965630) * (-24 - u) ->
  (x - 216518090678054) * (118 - w) = (z - 244665409335040) * (-24 - u) ->
  (x - 119252599207972) * (9 - v) = (y - 265844340901442) * (93 - u) ->
  (x - 119252599207972) * (-69 - w) = (z - 404506989029618) * (93 - u) ->
  (x - 366376232895280) * (38 - v) = (y - 243548034524148) * (18 - u) ->
  (x - 366376232895280) * (19 - w) = (z - 222429607201000) * (18 - u) ->
  (x = 422644646660238 /\ u = -260) \/
  (x = 216518090678054 /\ u = -24) \/
  (x = 119252599207972 /\ u = 93) \/
  (x = 366376232895280 /\ u = 18).
Proof.
  intros E1 E2 E3 E4 E5 E6.
  assert (F : conic 216518090678054 311610807965630 (-24) (-43)
                    119252599207972 265844340901442 93 9
                    366376232895280 243548034524148 18 38 x u = 0)
    by (apply (conic_vanishes _ _ _ _ _ _ _ _ _ _ _ _ x y u v); assumption).
  assert (G : conic 216518090678054 244665409335040 (-24) 118
                    119252599207972 404506989029618 93 (-69)
                    366376232895280 222429607201000 18 19 x u = 0)
    by (apply (conic_vanishes _ _ _ _ _ _ _ _ _ _ _ _ x z u w); assumption).
  assert (K1 : 2419758
               * ((x + 873417610094 * u - 195556068035798)
                  * (-25 * x - 82374544562436 * u + 10642147624505848))
               = -6157 * conic 216518090678054 311610807965630 (-24) (-43)
                    119252599207972 265844340901442 93 9
                    366376232895280 243548034524148 18 38 x u
                 + 4181 * conic 216518090678054 244665409335040 (-24) 118
                    119252599207972 404506989029618 93 (-69)
                    366376232895280 222429607201000 18 19 x u)
    by (unfold conic, det3; ring).
  assert (K2 : 537724
               * ((x + 859467556522 * u - 199183081964518)
                  * (21 * x - 74929071108613 * u - 6345177610845846))
               = 3453 * conic 216518090678054 311610807965630 (-24) (-43)
                    119252599207972 265844340901442 93 9
                    366376232895280 243548034524148 18 38 x u
                 + 3725 * conic 216518090678054 244665409335040 (-24) 118
                    119252599207972 404506989029618 93 (-69)
                    366376232895280 222429607201000 18 19 x u)
    by (unfold conic, det3; ring).
  rewrite F, G in K1, K2. rewrite !Z.mul_0_r, Z.add_0_r in K1, K2.
  apply Z.mul_eq_0 in K1, K2.
  destruct K1 as [K1|L1]; [discriminate K1|].
  destruct K2 as [K2|L2]; [discriminate K2|].
  apply Z.mul_eq_0 in L1. apply Z.mul_eq_0 in L2.
  clear - L1 L2.
  destruct L1 as [L1|L1], L2 as [L2|L2]; lia.
Qed.

(** Of the four candidates only the rock extends to integers for the other
    four unknowns: at a hailstone's [(px, vx)] the constraints of the two
    other hailstones are linear and have no integer solution. *)
Lemma rock_unique_Z (x y z u v w : Z) :
  (x - 216518090678054) * (-43 - v) = (y - 311610807965630) * (-24 - u) ->
  (x - 216518090678054) * (118 - w) = (z - 244665409335040) * (-24 - u) ->
  (x - 119252599207972) * (9 - v) = (y - 265844340901442) * (93 - u) ->
  (x - 119252599207972) * (-69 - w) = (z - 404506989029618) * (93 - u) ->
  (x - 366376232895280) * (38 - v) = (y - 243548034524148) * (18 - u) ->
  (x - 366376232895280) * (19 - w) = (z - 222429607201000) * (18 - u) ->
  x = 422644646660238 /\ y = 244357651988392 /\ z = 189640099899118 /\
  u = -260 /\ v = 34 /\ w = 181.
Proof.
  intros E1 E2 E3 E4 E5 E6.
  destruct (px_vx_candidates x y z u v w E1 E2 E3 E4 E5 E6)
    as [[-> ->]|[[-> ->]|[[-> ->]|[-> ->]]]].
  - repeat split; lia.
  - exfalso. clear - E3 E5. lia.
  - exfalso. clear - E1 E5. lia.
  - exfalso. clear - E1 E3. lia.
Qed.

Lemma rock_satisfies : satisfies rock assertions.
Proof. apply satisfies_assertions. cbn [rock assign]. repeat split. Qed.

Lemma rock_unique (a : Assignment) :
  satisfies a assertions -> forall k, a k = rock k.
Proof.
  intros H. apply satisfies_assertions in H.
  destruct H as (E1 & E2 & E3 & E4 & E5 & E6).
  destruct (rock_unique_Z _ _ _ _ _ _ E1 E2 E3 E4 E5 E6)
    as (Hx & Hy & Hz & Hu & Hv & Hw).
  intros []; assumption.
Qed.

(** C2: the six constraints built from the three literal hailstones have an
    integer solution, which satisfies each of them with residual zero, and
    it is the only one: every satisfying assignment of the six unknowns has
    the same six values. *)
Theorem system_has_unique_solution :
  satisfies (assign 422644646660238 244357651988392 189640099899118
                    (-260) 34 181) assertions /\
  Forall (fun c =>
            eval (assign 422644646660238 244357651988392 189640099899118
                         (-260) 34 181) (residual c) = 0) assertions /\
  (forall a : Assignment,
      satisfies a assertions ->
      a Px = 422644646660238 /\ a Py = 244357651988392 /\
      a Pz = 189640099899118 /\
      a Vx = -260 /\ a Vy = 34 /\ a Vz = 181).
Proof.
  split; [exact rock_satisfies | split].
  - unfold assertions, system.
    cbn [for_hailstones hailstones add app]. repeat constructor.
  - intros a H. pose proof (rock_unique a H) as U.
    repeat split; apply U.
Qed.

Lemma system_has_unique_solution_witness :
  satisfiesb rock assertions = true /\
  rock Px = 422644646660238 /\ rock Py = 244357651988392 /\
  rock Pz = 189640099899118 /\
  rock Vx = -260 /\ rock Vy = 34 /\ rock Vz = 181.
Proof.
  split; [reflexivity|].
  apply (proj2 (proj2 system_has_unique_solution) rock).
  exact (proj1 system_has_unique_solution).
Defined.

(** The constraints are necessary for a collision, not sufficient: with
    other hailstones an assignment can satisfy them and meet no hailstone
    (here [vx = ux] and [px = sx], which cancels both sides). *)
Remark constraints_alone_do_not_force_a_collision :
  satisfies (assign 1 0 0 0 4 5) (system [[1; 2; 3; 0; 4; 5]]) /\
  ~ Forall (collides (assign 1 0 0 0 4 5)) [[1; 2; 3; 0; 4; 5]].
Proof.
  split.
  - unfold satisfies, system. cbn [for_hailstones add app].
    repeat constructor.
  - intros H. inversion H as [|? ? Hc _]; subst.
    destruct Hc as (t & _ & (_ & Hy & _) & _).
    cbn [assign] in Hy. lra.
Qed.

(** C4: every assignment that satisfies the script's six constraints meets
    each of the three literal hailstones at some real time [t >= 0], in
    x, y and z at once, and this [t] is the one the x equation
    determines. *)
Theorem satisfying_assignment_collides (a : Assignment) :
  satisfies a assertions -> Forall (collides a) hailstones.
Proof.
  intros H. pose proof (rock_unique a H) as U.
  unfold hailstones, collides, meets. rewrite !U. cbn [rock assign].
  repeat apply Forall_cons; [| | | apply Forall_nil].
  - exists 873417610094%R. repeat split; try lra. intros t' Ht. lra.
  - exists 859467556522%R. repeat split; try lra. intros t' Ht. lra.
  - exists 202404366061%R. repeat split; try lra. intros t' Ht. lra.
Qed.

Lemma satisfying_assignment_collides_witness :
  satisfiesb rock assertions = true /\ Forall (collides rock) hailstones.
Proof.
  split; [reflexivity|].
  apply (satisfying_assignment_collides rock).
  apply satisfies_assertions. cbn [rock assign]. repeat split.
Defined.

(** ** Hailstones with a common velocity in x *)

Lemma same_ux_rock_satisfies : satisfies same_ux_rock (system same_ux_rows).
Proof.
  unfold satisfies, system, same_ux_rows.
  cbn [for_hailstones add app]. repeat constructor.
Qed.

Lemma same_ux_rock_unique (a : Assignment) :
  satisfies a (system same_ux_rows) -> forall k, a k = same_ux_rock k.
Proof.
  unfold satisfies, system, same_ux_rows.
  cbn [for_hailstones add app]. intros H.
  repeat match goal with
         | H : Forall _ (_ :: _) |- _ => inversion H; subst; clear H
         end.
  unfold holds, constraint_y, constraint_z in *.
  cbn [eval px py pz vx vy vz] in *.
  repeat match goal with H : Forall _ [] |- _ => clear H end.
  assert (L : a Vx = 1 /\ a Px = 0 /\ a Vy = 0 /\ a Vz = 0) by lia.
  destruct L as (Hu & Hx & Hv & Hw). rewrite Hu, Hx, Hv, Hw in *.
  intros []; cbn [same_ux_rock assign]; lia.
Qed.

(** With [vx] equal to the common [ux] the right sides vanish, and [py],
    [pz] no longer occur: the loop from solvers that already agree. *)
Lemma same_ux_for_hailstones (c : Z) (a : Assignment) (y z : Z)
  (rows : list (list Z)) :
  a Vx = c ->
  same_ux c rows ->
  forall s s' : Solver,
    (satisfies a s -> satisfies (assign (a Px) y z (a Vx) (a Vy) (a Vz)) s') ->
    match for_hailstones rows s, for_hailstones rows s' with
    | Ok r, Ok r' =>
        satisfies a r -> satisfies (assign (a Px) y z (a Vx) (a Vy) (a Vz)) r'
    | Raise _, Raise _ => True
    | _, _ => False
    end.
Proof.
  intros Hc Hrows. induction Hrows as [|row rows Hrow _ IH];
    intros s s' Hs; [exact Hs|].
  destruct row as [|sx [|sy [|sz [|ux [|uy [|uz [|extra row]]]]]]];
    try exact I.
  cbn [nth_error] in Hrow. injection Hrow as ->.
  rewrite !for_hailstones_step. apply IH.
  unfold satisfies in *. rewrite !Forall_app. intros [H0 H1].
  split; [exact (Hs H0)|].
  inversion H1 as [|? ? Hc1 H2]; subst.
  inversion H2 as [|? ? Hc2 _]; subst.
  rewrite holds_constraint_y in Hc1. rewrite holds_constraint_z in Hc2.
  repeat constructor;
    [rewrite holds_constraint_y | rewrite holds_constraint_z];
    cbn [assign]; rewrite Z.sub_diag, Z.mul_0_r in *; assumption.
Qed.

(** C6, as stated, fails: three hailstones with the same [ux] whose system
    has exactly one satisfying assignment. *)
Lemma same_ux_can_be_unique :
  ~ (forall (c : Z) (rows : list (list Z)),
        length rows = 3%nat -> same_ux c rows ->
        ~ unique_solution (system rows)).
Proof.
  intros claim. apply (claim 0 same_ux_rows).
  - reflexivity.
  - repeat constructor.
  - exists same_ux_rock. split.
    + exact same_ux_rock_satisfies.
    + exact same_ux_rock_unique.
Qed.

(** C6, amended: for three (or any number of) hailstones with the same
    [ux], a satisfying assignment whose [vx] is that [ux] stays satisfying
    when [py] and [pz] are replaced by any integers, so it is one of
    infinitely many and the system has no unique solution; a system with
    exactly one satisfying assignment has it with [vx] different from the
    common [ux]. *)
Theorem same_ux_same_vx_underdetermined (c : Z) (rows : list (list Z))
  (a : Assignment) :
  same_ux c rows ->
  satisfies a (system rows) ->
  a Vx = c ->
  (forall y z : Z,
      satisfies (assign (a Px) y z (a Vx) (a Vy) (a Vz)) (system rows)) /\
  ~ unique_solution (system rows).
Proof.
  intros Hrows Ha Hc.
  assert (Hfree : forall y z : Z,
             satisfies (assign (a Px) y z (a Vx) (a Vy) (a Vz)) (system rows)).
  { intros y z. revert Ha. unfold system.
    pose proof (same_ux_for_hailstones c a y z rows Hc Hrows [] []) as H.
    destruct (for_hailstones rows []) as [r|e] eqn:E.
    - apply H. intros _. constructor.
    - intros _. constructor. }
  split; [exact Hfree|].
  intros (b & Hb & Hunique).
  pose proof (Hunique _ (Hfree 0 0) Py) as H0.
  pose proof (Hunique _ (Hfree 1 0) Py) as H1.
  cbn [assign] in H0, H1. congruence.
Qed.

Lemma same_ux_same_vx_underdetermined_witness :
  same_ux 0 [[1; 2; 3; 0; 4; 5]; [1; 7; 8; 0; 4; 5]; [1; 0; 6; 0; 4; 5]] /\
  (forall y z : Z,
      satisfies
        (assign 1 y z 0 4 5)
        (system [[1; 2; 3; 0; 4; 5]; [1; 7; 8; 0; 4; 5]; [1; 0; 6; 0; 4; 5]]))
  /\
  ~ unique_solution
      (system [[1; 2; 3; 0; 4; 5]; [1; 7; 8; 0; 4; 5]; [1; 0; 6; 0; 4; 5]]).
Proof.
  assert (S : same_ux 0
                [[1; 2; 3; 0; 4; 5]; [1; 7; 8; 0; 4; 5]; [1; 0; 6; 0; 4; 5]])
    by (repeat constructor).
  split; [exact S|].
  apply (same_ux_same_vx_underdetermined 0
           [[1; 2; 3; 0; 4; 5]; [1; 7; 8; 0; 4; 5]; [1; 0; 6; 0; 4; 5]]
           (assign 1 0 0 0 4 5) S).
  - unfold satisfies, system. cbn [for_hailstones add app].
    repeat constructor.
  - reflexivity.
Defined.

(** ** The loop on rows of any number and length *)

Lemma for_hailstones_flat_map (rows : list (list Z)) :
  forall s : Solver,
    for_hailstones rows s =
    if forallb six_long rows
    then Ok (s ++ flat_map row_constraints rows)
    else Raise ValueError.
Proof.
  induction rows as [|row rows IH]; intros s.
  - cbn. now rewrite app_nil_r.
  - destruct row as [|sx [|sy [|sz [|ux [|uy [|uz [|extra row]]]]]]];
      try reflexivity.
    rewrite for_hailstones_step, IH.
    cbn [forallb six_long length Nat.eqb andb flat_map row_constraints].
    destruct (forallb six_long rows); [|reflexivity].
    now rewrite <- app_assoc.
Qed.

Lemma well_formed_forallb (rows : list (list Z)) :
  well_formed rows <-> forallb six_long rows = true.
Proof.
  unfold well_formed, six_long. rewrite forallb_forall, Forall_forall.
  split; intros H row Hin; specialize (H row Hin);
    [now apply Nat.eqb_eq | now apply Nat.eqb_eq in H].
Qed.

Lemma system_well_formed (rows : list (list Z)) :
  well_formed rows -> system rows = flat_map row_constraints rows.
Proof.
  intros H. apply well_formed_forallb in H.
  unfold system. now rewrite for_hailstones_flat_map, H.
Qed.

Lemma satisfies_flat_map (a : Assignment) (rows : list (list Z)) :
  satisfies a (flat_map row_constraints rows) <-> Forall (row_holds a) rows.
Proof.
  unfold satisfies, row_holds.
  induction rows as [|row rows IH]; cbn [flat_map].
  - split; constructor.
  - rewrite Forall_app, IH. split.
    + intros [H1 H2]. now constructor.
    + intros H. inversion H; subst. now split.
Qed.

Lemma row_holds_six (a : Assignment) (sx sy sz ux uy uz : Z) :
  row_holds a [sx; sy; sz; ux; uy; uz] <->
  holds a (constraint_y sx sy ux uy) /\ holds a (constraint_z sx sz ux uz).
Proof.
  unfold row_holds. cbn [row_constraints]. split.
  - intros H. inversion H as [|? ? H1 H']; subst.
    inversion H' as [|? ? H2 _]; subst. now split.
  - intros [H1 H2]. now repeat constructor.
Qed.

(** X1: the loop started on a solver [s] ends, when every row has six
    entries, with [s] followed by two new assertions per row (none for an
    empty list of rows), in the order of the rows; a row of any other
    length makes it raise [ValueError]. *)
Theorem loop_on_rows (rows : list (list Z)) (s : Solver) :
  (well_formed rows ->
   for_hailstones rows s = Ok (s ++ flat_map row_constraints rows) /\
   length (flat_map row_constraints rows) = (2 * length rows)%nat) /\
  (~ well_formed rows -> for_hailstones rows s = Raise ValueError).
Proof.
  rewrite for_hailstones_flat_map, well_formed_forallb. split.
  - intros H. rewrite H. split; [reflexivity|].
    apply well_formed_forallb in H. clear s.
    induction H as [|row rows Hrow _ IH]; [reflexivity|].
    cbn [flat_map length]. rewrite length_app, IH.
    destruct row as [|sx [|sy [|sz [|ux [|uy [|uz [|extra row]]]]]]];
      try discriminate Hrow.
    cbn [row_constraints length]. lia.
  - intros H. now destruct (forallb six_long rows).
Qed.

Lemma loop_on_rows_witness :
  for_hailstones [[1; 2; 3; 4; 5; 6]; [7; 8; 9; 10; 11; 12]]
                 [constraint_y 0 0 0 0] =
  Ok [constraint_y 0 0 0 0;
      constraint_y 1 2 4 5; constraint_z 1 3 4 6;
      constraint_y 7 8 10 11; constraint_z 7 9 10 12] /\
  for_hailstones [[1; 2; 3; 4; 5; 6]; [7; 8; 9]] [] = Raise ValueError.
Proof.
  split.
  - apply (proj1 (loop_on_rows [[1; 2; 3; 4; 5; 6]; [7; 8; 9; 10; 11; 12]]
                               [constraint_y 0 0 0 0])).
    repeat constructor.
  - apply (proj2 (loop_on_rows [[1; 2; 3; 4; 5; 6]; [7; 8; 9]] [])).
    intros H. inversion H as [|? ? _ H']; subst.
    inversion H' as [|? ? Hlen _]; subst. discriminate Hlen.
Defined.

(** X2: for rows of six entries the system the loop builds is satisfied
    exactly when both constraints of every row hold; so the system of two
    lists of rows put together is satisfied exactly when the two systems
    are, and further hailstones can only remove solutions. *)
Theorem system_is_conjunction_of_rows (a : Assignment)
  (rows more : list (list Z)) :
  well_formed rows -> well_formed more ->
  (satisfies a (system rows) <-> Forall (row_holds a) rows) /\
  (satisfies a (system (rows ++ more)) <->
   satisfies a (system rows) /\ satisfies a (system more)).
Proof.
  intros H1 H2.
  assert (H12 : well_formed (rows ++ more)) by (apply Forall_app; now split).
  rewrite !system_well_formed by assumption.
  rewrite !satisfies_flat_map, Forall_app. tauto.
Qed.

Lemma system_is_conjunction_of_rows_witness :
  (satisfies same_ux_rock (system same_ux_rows) <->
   Forall (row_holds same_ux_rock) same_ux_rows) /\
  (satisfies same_ux_rock (system (same_ux_rows ++ hailstones)) <->
   satisfies same_ux_rock (system same_ux_rows) /\
   satisfies same_ux_rock (system hailstones)).
Proof.
  apply (system_is_conjunction_of_rows same_ux_rock same_ux_rows hailstones);
    repeat constructor.
Defined.

(** X3: the order of the rows does not matter: on a permutation of the
    rows the loop raises the same exception, or ends with assertions that
    the same assignments satisfy. *)
Theorem system_of_permuted_rows (rows rows' : list (list Z)) :
  Permutation rows rows' ->
  match for_hailstones rows [], for_hailstones rows' [] with
  | Ok cs, Ok cs' => forall a, satisfies a cs <-> satisfies a cs'
  | Raise e, Raise e' => e = e'
  | _, _ => False
  end.
Proof.
  intros P. rewrite !for_hailstones_flat_map.
  assert (E : forallb six_long rows = forallb six_long rows').
  { induction P; cbn [forallb]; try congruence.
    now rewrite !andb_assoc, (andb_comm (six_long y)). }
  rewrite <- E. destruct (forallb six_long rows); [|reflexivity].
  intros a. cbn [app]. rewrite !satisfies_flat_map.
  split; apply Permutation_Forall; [exact P | now apply Permutation_sym].
Qed.

Lemma system_of_permuted_rows_witness :
  satisfies rock (system hailstones) <->
  satisfies rock (system (rev hailstones)).
Proof.
  exact (system_of_permuted_rows hailstones (rev hailstones)
           (Permutation_rev hailstones) rock).
Defined.

(** ** What the two constraints of a hailstone say *)

(** With [vx <> ux] the time of the x equation serves all three. *)
Lemma constraints_give_time (a : Assignment) (sx sy sz ux uy uz : Z) :
  a Vx <> ux ->
  holds a (constraint_y sx sy ux uy) ->
  holds a (constraint_z sx sz ux uz) ->
  meets a sx sy sz ux uy uz (IZR (a Px - sx) / IZR (ux - a Vx)).
Proof.
  rewrite holds_constraint_y, holds_constraint_z. intros Hne Hy Hz.
  assert (HB : IZR (ux - a Vx) <> 0%R) by (apply not_0_IZR; lia).
  set (t := (IZR (a Px - sx) / IZR (ux - a Vx))%R).
  assert (Ht : (t * IZR (ux - a Vx) = IZR (a Px - sx))%R)
    by (unfold t; field; exact HB).
  assert (Hty : (t * IZR (uy - a Vy) = IZR (a Py - sy))%R).
  { apply (Rmult_eq_reg_r (IZR (ux - a Vx))); [|exact HB].
    rewrite <- (mult_IZR (a Py - sy)), <- Hy, mult_IZR, <- Ht. ring. }
  assert (Htz : (t * IZR (uz - a Vz) = IZR (a Pz - sz))%R).
  { apply (Rmult_eq_reg_r (IZR (ux - a Vx))); [|exact HB].
    rewrite <- (mult_IZR (a Pz - sz)), <- Hz, mult_IZR, <- Ht. ring. }
  rewrite !minus_IZR in Ht, Hty, Htz.
  unfold meets. repeat split; lra.
Qed.

Lemma meets_gives_constraints (a : Assignment) (sx sy sz ux uy uz : Z)
  (t : R) :
  meets a sx sy sz ux uy uz t ->
  holds a (constraint_y sx sy ux uy) /\ holds a (constraint_z sx sz ux uz).
Proof.
  intros (Hx & Hy & Hz). rewrite holds_constraint_y, holds_constraint_z.
  split; apply eq_IZR; rewrite !mult_IZR, !minus_IZR;
    eapply cross_multiply; eassumption.
Qed.

(** X4: the two constraints of a hailstone hold exactly when the rock and
    the hailstone are at the same position at some real time, or the rock
    has the hailstone's [vx] and, besides, its [px] or both its [vy] and
    [vz]; with [vx <> ux] the time is the only one. *)
Theorem constraints_characterised (a : Assignment) (sx sy sz ux uy uz : Z) :
  (holds a (constraint_y sx sy ux uy) /\ holds a (constraint_z sx sz ux uz)
   <->
   (exists t : R, meets a sx sy sz ux uy uz t) \/
   (a Vx = ux /\ (a Px = sx \/ (a Vy = uy /\ a Vz = uz)))) /\
  (a Vx <> ux ->
   forall t t' : R,
     meets a sx sy sz ux uy uz t -> meets a sx sy sz ux uy uz t' -> t = t').
Proof.
  split; [split|].
  - intros [Hy Hz]. destruct (Z.eq_dec (a Vx) ux) as [E|NE].
    + right. split; [exact E|].
      rewrite holds_constraint_y in Hy. rewrite holds_constraint_z in Hz.
      rewrite E, Z.sub_diag, Z.mul_0_r in Hy, Hz.
      apply Z.mul_eq_0 in Hy, Hz. lia.
    + left. eexists. now apply constraints_give_time.
  - intros [[t Ht]|[E [Ex|[Ey Ez]]]].
    + exact (meets_gives_constraints _ _ _ _ _ _ _ t Ht).
    + rewrite holds_constraint_y, holds_constraint_z, E, Ex, !Z.sub_diag.
      split; ring.
    + rewrite holds_constraint_y, holds_constraint_z, E, Ey, Ez, !Z.sub_diag.
      split; ring.
  - intros NE t t' (Hx & _) (Hx' & _).
    assert (HB : (IZR ux - IZR (a Vx))%R <> 0%R).
    { rewrite <- minus_IZR. apply not_0_IZR. lia. }
    apply (Rmult_eq_reg_r (IZR ux - IZR (a Vx))); [lra | exact HB].
Qed.

(** X5: lines 21-22, the third equality
    [(py - sy) * (uz - vz) = (pz - sz) * (uy - vy)] follows from the two
    the script adds, unless the rock has both the [px] and the [vx] of the
    hailstone. *)
Theorem third_equation_follows (a : Assignment) (sx sy sz ux uy uz : Z) :
  holds a (constraint_y sx sy ux uy) ->
  holds a (constraint_z sx sz ux uz) ->
  a Px <> sx \/ a Vx <> ux ->
  (a Py - sy) * (uz - a Vz) = (a Pz - sz) * (uy - a Vy).
Proof.
  rewrite holds_constraint_y, holds_constraint_z. intros Hy Hz Hnd.
  set (T := (a Py - sy) * (uz - a Vz) - (a Pz - sz) * (uy - a Vy)).
  assert (HA : (a Px - sx) * T = 0).
  { unfold T.
    replace ((a Px - sx)
             * ((a Py - sy) * (uz - a Vz) - (a Pz - sz) * (uy - a Vy)))
      with ((a Py - sy) * ((a Px - sx) * (uz - a Vz))
            - (a Pz - sz) * ((a Px - sx) * (uy - a Vy))) by ring.
    rewrite Hy, Hz. ring. }
  assert (HB : (ux - a Vx) * T = 0).
  { unfold T.
    replace ((ux - a Vx)
             * ((a Py - sy) * (uz - a Vz) - (a Pz - sz) * (uy - a Vy)))
      with (((a Py - sy) * (ux - a Vx)) * (uz - a Vz)
            - ((a Pz - sz) * (ux - a Vx)) * (uy - a Vy)) by ring.
    rewrite <- Hy, <- Hz. ring. }
  apply Z.mul_eq_0 in HA, HB. unfold T in *. lia.
Qed.

Lemma third_equation_follows_witness :
  (rock Py - 311610807965630) * (118 - rock Vz)
  = (rock Pz - 244665409335040) * (-43 - rock Vy).
Proof.
  apply (third_equation_follows rock 216518090678054 311610807965630
           244665409335040 (-24) (-43) 118).
  - reflexivity.
  - reflexivity.
  - left. discriminate.
Defined.

(** Where the rock has the [px] and the [vx] of the hailstone the third
    equality need not hold. *)
Remark third_equation_can_fail :
  holds (assign 1 0 0 4 0 0) (constraint_y 1 2 4 5) /\
  holds (assign 1 0 0 4 0 0) (constraint_z 1 3 4 7) /\
  (0 - 2) * (7 - 0) <> (0 - 3) * (5 - 0).
Proof. repeat split. discriminate. Qed.

(** X6: the products of two unknowns are the same in the constraints of
    all hailstones: an assignment that satisfies the constraints of two
    hailstones satisfies, on each axis, an equation that is linear in the
    unknowns. *)
Theorem two_hailstones_give_linear_equations (a : Assignment)
  (sx sy sz ux uy uz sx' sy' sz' ux' uy' uz' : Z) :
  holds a (constraint_y sx sy ux uy) ->
  holds a (constraint_z sx sz ux uz) ->
  holds a (constraint_y sx' sy' ux' uy') ->
  holds a (constraint_z sx' sz' ux' uz') ->
  (uy - uy') * a Px - (ux - ux') * a Py
  - (sy - sy') * a Vx + (sx - sx') * a Vy
  = (sx * uy - sy * ux) - (sx' * uy' - sy' * ux') /\
  (uz - uz') * a Px - (ux - ux') * a Pz
  - (sz - sz') * a Vx + (sx - sx') * a Vz
  = (sx * uz - sz * ux) - (sx' * uz' - sz' * ux').
Proof.
  rewrite !holds_constraint_y, !holds_constraint_z. intros Hy Hz Hy' Hz'.
  split; lia.
Qed.

Lemma two_hailstones_give_linear_equations_witness :
  (-43 - 9) * rock Px - (-24 - 93) * rock Py
  - (311610807965630 - 265844340901442) * rock Vx
  + (216518090678054 - 119252599207972) * rock Vy
  = (216518090678054 * -43 - 311610807965630 * -24)
    - (119252599207972 * 9 - 265844340901442 * 93) /\
  (118 - -69) * rock Px - (-24 - 93) * rock Pz
  - (244665409335040 - 404506989029618) * rock Vx
  + (216518090678054 - 119252599207972) * rock Vz
  = (216518090678054 * 118 - 244665409335040 * -24)
    - (119252599207972 * -69 - 404506989029618 * 93).
Proof.
  apply (two_hailstones_give_linear_equations rock
           216518090678054 311610807965630 244665409335040 (-24) (-43) 118
           119252599207972 265844340901442 404506989029618 93 9 (-69));
    reflexivity.
Defined.

(** X7: the constraints do not depend on the units: with lengths
    multiplied by [l <> 0] and velocities by [m <> 0] (time reversed for
    [m = -1]), the rescaled rock satisfies the constraints of the rescaled
    hailstone exactly when the rock satisfies those of the hailstone. *)
Theorem rescaling_invariance (l m : Z) (a : Assignment)
  (sx sy sz ux uy uz : Z) :
  l <> 0 -> m <> 0 ->
  (holds a (constraint_y sx sy ux uy) /\ holds a (constraint_z sx sz ux uz)
   <->
   holds (rescale l m a) (constraint_y (l * sx) (l * sy) (m * ux) (m * uy)) /\
   holds (rescale l m a) (constraint_z (l * sx) (l * sz) (m * ux) (m * uz))).
Proof.
  intros Hl Hm. rewrite !holds_constraint_y, !holds_constraint_z.
  unfold rescale. cbn [assign].
  replace ((l * a Px - l * sx) * (m * uy - m * a Vy))
    with (l * m * ((a Px - sx) * (uy - a Vy))) by ring.
  replace ((l * a Py - l * sy) * (m * ux - m * a Vx))
    with (l * m * ((a Py - sy) * (ux - a Vx))) by ring.
  replace ((l * a Px - l * sx) * (m * uz - m * a Vz))
    with (l * m * ((a Px - sx) * (uz - a Vz))) by ring.
  replace ((l * a Pz - l * sz) * (m * ux - m * a Vx))
    with (l * m * ((a Pz - sz) * (ux - a Vx))) by ring.
  assert (Hlm : l * m <> 0) by (apply Z.neq_mul_0; now split).
  split; intros [H1 H2].
  - now rewrite H1, H2.
  - split; eapply Z.mul_reg_l; eassumption.
Qed.

Lemma rescaling_invariance_witness :
  holds (rescale 1 (-1) rock)
        (constraint_y 216518090678054 311610807965630 24 43) /\
  holds (rescale 1 (-1) rock)
        (constraint_z 216518090678054 244665409335040 24 (-118)).
Proof.
  apply (proj1 (rescaling_invariance 1 (-1) rock
                  216518090678054 311610807965630 244665409335040
                  (-24) (-43) 118 ltac:(discriminate) ltac:(discriminate))).
  split; reflexivity.
Defined.

(** X8: a rock that is, for every row, at the position of the row's
    hailstone at some real time satisfies the system the loop builds from
    the rows; and where no row has the rock's [vx] as its [ux], satisfying
    the system is the same as meeting every hailstone. *)
Theorem system_encodes_meeting (a : Assignment) (rows : list (list Z)) :
  (Forall (meets_row a) rows -> satisfies a (system rows)) /\
  (well_formed rows ->
   Forall (fun row => nth_error row 3 <> Some (a Vx)) rows ->
   satisfies a (system rows) -> Forall (meets_row a) rows).
Proof.
  split.
  - intros H.
    assert (W : well_formed rows).
    { unfold well_formed. eapply Forall_impl; [|exact H].
      intros row Hrow.
      destruct row as [|sx [|sy [|sz [|ux [|uy [|uz [|extra row]]]]]]];
        try contradiction. reflexivity. }
    rewrite (system_well_formed rows W), satisfies_flat_map.
    eapply Forall_impl; [|exact H]. intros row Hrow.
    destruct row as [|sx [|sy [|sz [|ux [|uy [|uz [|extra row]]]]]]];
      try contradiction.
    destruct Hrow as [t Ht]. apply row_holds_six.
    exact (meets_gives_constraints _ _ _ _ _ _ _ t Ht).
  - intros W Hne. rewrite (system_well_formed rows W), satisfies_flat_map.
    intros H. induction W as [|row rows Hlen W IH]; [constructor|].
    inversion Hne as [|? ? Hne1 Hne2]; subst.
    inversion H as [|? ? H1 H2]; subst.
    constructor; [|now apply IH].
    destruct row as [|sx [|sy [|sz [|ux [|uy [|uz [|extra row]]]]]]];
      try discriminate Hlen.
    apply row_holds_six in H1. destruct H1 as [Hy Hz].
    cbn [nth_error] in Hne1. cbn [meets_row]. eexists.
    apply constraints_give_time; [congruence | exact Hy | exact Hz].
Qed.

Lemma system_encodes_meeting_witness :
  satisfies same_ux_rock (system same_ux_rows) /\
  Forall (meets_row same_ux_rock) same_ux_rows.
Proof.
  split.
  - apply (proj1 (system_encodes_meeting same_ux_rock same_ux_rows)).
    unfold same_ux_rows, meets_row, meets. cbn [same_ux_rock assign].
    repeat apply Forall_cons; [| | | apply Forall_nil].
    + exists 1%R. repeat split; lra.
    + exists 2%R. repeat split; lra.
    + exists 3%R. repeat split; lra.
  - apply (proj2 (system_encodes_meeting same_ux_rock same_ux_rows)).
    + repeat constructor.
    + repeat constructor; discriminate.
    + unfold satisfies, system, same_ux_rows.
      cbn [for_hailstones add app]. repeat constructor.
Defined.

(** ** The script and the model it reads *)

(** X9: once the solver has returned a model, the script prints the
    position and the velocity lines whatever the model leaves out ([None]
    is rendered as such); it then raises [AttributeError], with no answer
    line, exactly when [px], [py] or [pz] has no value in the model, and
    otherwise prints the answer and ends normally, even if velocity
    components are left out. *)
Theorem run_by_position_values (z3 : Z3) (m : ModelRef) :
  model z3 assertions = Ok m ->
  (m Px = None \/ m Py = None \/ m Pz = None ->
   run z3 =
   ([PAssertions assertions; PVerdict (check z3 assertions); PBlank;
     PPosition (m Px) (m Py) (m Pz); PVelocity (m Vx) (m Vy) (m Vz);
     PBlank], Raise AttributeError)) /\
  (forall x y z,
      m Px = Some x -> m Py = Some y -> m Pz = Some z ->
      run z3 =
      ([PAssertions assertions; PVerdict (check z3 assertions); PBlank;
        PPosition (Some x) (Some y) (Some z);
        PVelocity (m Vx) (m Vy) (m Vz);
        PBlank; PAnswer (x + y + z)], Ok tt)).
Proof.
  intros Hm. rewrite (run_model z3 m Hm). unfold answer, as_long. split.
  - intros H. destruct (m Px), (m Py), (m Pz); try reflexivity.
    destruct H as [H|[H|H]]; discriminate H.
  - intros x y z -> -> ->. reflexivity.
Qed.

Lemma run_by_position_values_witness :
  run {| check := fun _ => sat;
         model := fun _ => Ok (fun k => if Unknown_eqb k Py
                                        then None else Some 1) |} =
  ([PAssertions assertions; PVerdict sat; PBlank;
    PPosition (Some 1) None (Some 1);
    PVelocity (Some 1) (Some 1) (Some 1); PBlank], Raise AttributeError) /\
  run {| check := fun _ => sat;
         model := fun _ => Ok (fun k => if Unknown_eqb k Vy
                                        then None else Some 1) |} =
  ([PAssertions assertions; PVerdict sat; PBlank;
    PPosition (Some 1) (Some 1) (Some 1);
    PVelocity (Some 1) None (Some 1); PBlank; PAnswer 3], Ok tt).
Proof.
  split.
  - apply (proj1 (run_by_position_values
                    {| check := fun _ => sat;
                       model := fun _ => Ok (fun k => if Unknown_eqb k Py
                                                      then None else Some 1) |}
                    (fun k => if Unknown_eqb k Py then None else Some 1)
                    eq_refl)).
    right. left. reflexivity.
  - apply (proj2 (run_by_position_values
                    {| check := fun _ => sat;
                       model := fun _ => Ok (fun k => if Unknown_eqb k Vy
                                                      then None else Some 1) |}
                    (fun k => if Unknown_eqb k Vy then None else Some 1)
                    eq_refl) 1 1 1); reflexivity.
Defined.

(** A model of the script's constraints gives every unknown its value in
    [rock]: a constant left out could be moved away from it. *)
Lemma sound_model_is_rock (m : ModelRef) :
  sound_model m assertions -> forall k, m k = Some (rock k).
Proof.
  intros S k.
  assert (C : completes (away_from_rock m) m).
  { intros j v Hj. unfold away_from_rock. now rewrite Hj. }
  pose proof (rock_unique _ (S _ C) k) as U.
  unfold away_from_rock in U. destruct (m k) as [v|].
  - now rewrite U.
  - lia.
Qed.

(** X10: whatever solver is used, if the model it returns for the script's
    constraints is a model of them, the script ends normally and prints,
    after the constraints and the verdict, the position
    (422644646660238, 244357651988392, 189640099899118), the velocity
    (-260, 34, 181) and the answer 856642398547748. *)
Theorem run_with_sound_model (z3 : Z3) (m : ModelRef) :
  model z3 assertions = Ok m ->
  sound_model m assertions ->
  run z3 =
  ([PAssertions assertions; PVerdict (check z3 assertions); PBlank;
    PPosition (Some 422644646660238) (Some 244357651988392)
              (Some 189640099899118);
    PVelocity (Some (-260)) (Some 34) (Some 181);
    PBlank; PAnswer 856642398547748], Ok tt).
Proof.
  intros Hm S. pose proof (sound_model_is_rock m S) as R.
  rewrite (run_model z3 m Hm). unfold answer, as_long.
  rewrite (R Px), (R Py), (R Pz), (R Vx), (R Vy), (R Vz). reflexivity.
Qed.

Lemma run_with_sound_model_witness :
  sound_model rock_model assertions /\
  run z3_rock =
  ([PAssertions assertions; PVerdict sat; PBlank;
    PPosition (Some 422644646660238) (Some 244357651988392)
              (Some 189640099899118);
    PVelocity (Some (-260)) (Some 34) (Some 181);
    PBlank; PAnswer 856642398547748], Ok tt).
Proof.
  assert (S : sound_model rock_model assertions).
  { intros a C. apply satisfies_assertions.
    rewrite (C Px _ eq_refl), (C Py _ eq_refl), (C Pz _ eq_refl),
      (C Vx _ eq_refl), (C Vy _ eq_refl), (C Vz _ eq_refl).
    cbn [rock assign]. repeat split. }
  split; [exact S|].
  exact (run_with_sound_model z3_rock rock_model eq_refl S).
Defined.
